(** * A to-do list widget: [TodoItem] and [TodoListService]

    Shallow embedding of [source/code/todo-item/todo-item.cpp] and
    [source/code/todo-list/todo-list.cpp].

    Every object the program creates lives on the free store and is
    reached through a pointer, and the list of tasks is one global
    vector of such pointers.  The embedding therefore threads an
    explicit program state (free store + the global vector) through
    every member function, in a state-and-fault monad: a member
    function called through a pointer that does not designate an object
    of the right class faults. *)

From stdpp Require Import gmap strings list fin_maps.

Local Open Scope Z_scope.

(** ** Machine integers: the C++ [int] *)

(** [int] is taken to be 32 bits wide, in two's complement, and
    arithmetic that leaves its range to wrap round modulo [2^32]. *)

Module Int.

Definition width : Z := 32.
Definition modulus : Z := 2 ^ width.
Definition INT_MAX : Z := 2 ^ (width - 1) - 1.
Definition INT_MIN : Z := - 2 ^ (width - 1).

(** Reduction of a mathematical integer to the two's-complement
    representative in [INT_MIN .. INT_MAX]. *)
Definition wrap (z : Z) : Z := (z + 2 ^ (width - 1)) mod modulus - 2 ^ (width - 1).

(** [a + b] on [int]; a sum out of range wraps round. *)
Definition add (a b : Z) : Z := wrap (a + b).

Definition in_range (z : Z) : Prop := INT_MIN ≤ z ≤ INT_MAX.

End Int.

(** ** Objects and the program state *)

Definition QString := string.
Definition ptr := positive.

(** [class TodoItem]: the three private data members. *)
Record TodoItem := mkTodoItem {
  name : QString;
  author : QString;
  times_done : Z
}.

(** The part of the toolkit's widgets that the program touches: a push
    button carries its text, a vertical box layout the widgets added to
    it, first added first. *)
Record QPushButton := mkQPushButton { text : QString }.
Record QVBoxLayout := mkQVBoxLayout { widgets : list ptr }.

(** [VectorTodoItem]: a vector of pointers to [TodoItem]
    ([push_back(first_todo)] with [first_todo : TodoItem*], and
    [todo_item->GetLayout()] on its elements). *)
Definition VectorTodoItem := list ptr.

(** The objects of the store.  [OVector] is a vector object other than
    the global one: a [VectorTodoItem] of its own, such as a copy of
    the global vector. *)
Inductive object :=
  | OTodoItem (t : TodoItem)
  | OQPushButton (b : QPushButton)
  | OQVBoxLayout (l : QVBoxLayout)
  | OVector (v : VectorTodoItem).

Record State := mkState {
  heap : gmap ptr object;
  DefaultTodoList : VectorTodoItem   (* [VectorTodoItem DefaultTodoList;] *)
}.

(** Program start: nothing allocated, the global vector is empty. *)
Definition initial : State := mkState ∅ [].

(** ** The monad of member functions *)

Definition M (A : Type) : Type := State → option (A * State).

Definition ret {A} (a : A) : M A := λ σ, Some (a, σ).
Definition bind {A B} (m : M A) (k : A → M B) : M B :=
  λ σ, match m σ with
       | Some (a, σ') => k a σ'
       | None => None
       end.
Definition fault {A} : M A := λ _, None.

Declare Scope cpp_scope.
Delimit Scope cpp_scope with cpp.
Notation "'do' x <- m ; k" := (bind m (λ x, k))
  (at level 10, x name, m at level 100, k at level 200) : cpp_scope.
Notation "m ;; k" := (bind m (λ _, k))
  (at level 100, k at level 200, right associativity) : cpp_scope.
Local Open Scope cpp_scope.

(** [new T]: a pointer that designates no live object becomes the
    address of the new one.  Nothing in the program is ever deleted. *)
Definition new_ (o : object) : M ptr :=
  λ σ, let p := fresh (dom (heap σ)) in
       Some (p, mkState (<[p := o]> (heap σ)) (DefaultTodoList σ)).

Definition load (p : ptr) : M object :=
  λ σ, match heap σ !! p with
       | Some o => Some (o, σ)
       | None => None
       end.

Definition store (p : ptr) (o : object) : M unit :=
  λ σ, Some (tt, mkState (<[p := o]> (heap σ)) (DefaultTodoList σ)).

Definition load_TodoItem (p : ptr) : M TodoItem :=
  do o <- load p;
  match o with OTodoItem t => ret t | _ => fault end.

Definition load_QPushButton (p : ptr) : M QPushButton :=
  do o <- load p;
  match o with OQPushButton b => ret b | _ => fault end.

Definition load_QVBoxLayout (p : ptr) : M QVBoxLayout :=
  do o <- load p;
  match o with OQVBoxLayout l => ret l | _ => fault end.

(** ** The toolkit calls the program makes *)

(** [new QPushButton]: a button with empty text. *)
Definition new_QPushButton : M ptr := new_ (OQPushButton (mkQPushButton "")).

(** [button->setText(s)] *)
Definition QPushButton_setText (button : ptr) (s : QString) : M unit :=
  do _ <- load_QPushButton button;
  store button (OQPushButton (mkQPushButton s)).

(** [new QVBoxLayout]: an empty layout. *)
Definition new_QVBoxLayout : M ptr := new_ (OQVBoxLayout (mkQVBoxLayout [])).

(** [layout->addWidget(w)]: [w] goes to the end of the layout. *)
Definition QVBoxLayout_addWidget (layout w : ptr) : M unit :=
  do l <- load_QVBoxLayout layout;
  store layout (OQVBoxLayout (mkQVBoxLayout (widgets l ++ [w]))).

(** ** [todo-item.cpp] *)

(** [TodoItem::TodoItem()] *)
Definition TodoItem_ctor_default : TodoItem :=
  {| name := "Chill"; author := "Andrew"; times_done := 0 |}.

(** [TodoItem::TodoItem(const QString& new_name, const QString& new_author)] *)
Definition TodoItem_ctor (new_name new_author : QString) : TodoItem :=
  {| name := new_name; author := new_author; times_done := 0 |}.

(** [new TodoItem] and [new TodoItem(new_name, new_author)] *)
Definition new_TodoItem_default : M ptr := new_ (OTodoItem TodoItem_ctor_default).
Definition new_TodoItem (new_name new_author : QString) : M ptr :=
  new_ (OTodoItem (TodoItem_ctor new_name new_author)).

(** [QString GetName() const { return name; }] *)
Definition GetName (this : ptr) : M QString :=
  do t <- load_TodoItem this; ret (name t).

(** [QString GetAuthor() const { return author; }] *)
Definition GetAuthor (this : ptr) : M QString :=
  do t <- load_TodoItem this; ret (author t).

(** [int GetTimesDone() const { return times_done; }] *)
Definition GetTimesDone (this : ptr) : M Z :=
  do t <- load_TodoItem this; ret (times_done t).

(** [void TodoItem::IncreaseTimesDone() { times_done += 1; }] *)
Definition IncreaseTimesDone (this : ptr) : M unit :=
  do t <- load_TodoItem this;
  store this (OTodoItem {| name := name t; author := author t;
                           times_done := Int.add (times_done t) 1 |}).

(** [QPushButton* TodoItem::GetLayout() const] *)
Definition TodoItem_GetLayout (this : ptr) : M ptr :=
  do t <- load_TodoItem this;
  do button <- new_QPushButton;
  QPushButton_setText button (name t);;
  ret button.

(** ** [todo-list.cpp] *)

(** An lvalue of type [VectorTodoItem&]: it designates either the
    global vector or a vector object of the store. *)
Inductive VectorTodoItem_ref :=
  | ref_DefaultTodoList
  | ref_vector (p : ptr).

Definition load_vector (p : ptr) : M VectorTodoItem :=
  do o <- load p;
  match o with OVector v => ret v | _ => fault end.

(** Reading through a reference, and [push_back] through one: both
    reach the object the reference designates, as it is at that
    moment. *)
Definition deref (r : VectorTodoItem_ref) : M VectorTodoItem :=
  match r with
  | ref_DefaultTodoList => λ σ, Some (DefaultTodoList σ, σ)
  | ref_vector p => load_vector p
  end.

Definition push_back (r : VectorTodoItem_ref) (p : ptr) : M unit :=
  match r with
  | ref_DefaultTodoList =>
      λ σ, Some (tt, mkState (heap σ) (DefaultTodoList σ ++ [p]))
  | ref_vector q =>
      do v <- load_vector q;
      store q (OVector (v ++ [p]))
  end.

(** [TodoListService::TodoListService()] *)
Definition TodoListService_ctor (this : ptr) : M unit :=
  do first_todo <- new_TodoItem "Clean cat shit" "Andrew";
  do second_todo <- new_TodoItem "Wash dishes" "Victoria";
  do third_todo <- new_TodoItem "English language homework" "Tatyana";
  push_back ref_DefaultTodoList first_todo;;
  push_back ref_DefaultTodoList second_todo;;
  push_back ref_DefaultTodoList third_todo.

(** [VectorTodoItem& TodoListService::GetTodos() const { return DefaultTodoList; }] *)
Definition GetTodos (this : ptr) : M VectorTodoItem_ref := ret ref_DefaultTodoList.

(** The range-[for] of [GetLayout], over the elements of [todos]. *)
Fixpoint GetLayout_loop (layout : ptr) (todos : VectorTodoItem) : M unit :=
  match todos with
  | [] => ret tt
  | todo_item :: rest =>
      do todo_widget <- TodoItem_GetLayout todo_item;
      QVBoxLayout_addWidget layout todo_widget;;
      GetLayout_loop layout rest
  end.

(** [QVBoxLayout* TodoListService::GetLayout() const].  [auto todos]
    drops the reference: [todos] is a copy of the vector (of the
    pointers, not of the items). *)
Definition TodoListService_GetLayout (this : ptr) : M ptr :=
  do layout <- new_QVBoxLayout;
  do r <- GetTodos this;
  do todos <- deref r;
  GetLayout_loop layout todos;;
  ret layout.

(** ** Calling a member function several times *)

(** [k] calls of [m] in a row. *)
Definition iterate (k : N) (m : M unit) : M unit :=
  N.iter k (λ rest, m;; rest) (ret tt).

(** The public member functions of [TodoItem], as data, so that one can
    speak of an arbitrary sequence of calls on one object. *)
Inductive TodoItem_op :=
  | op_GetName
  | op_GetAuthor
  | op_GetTimesDone
  | op_IncreaseTimesDone
  | op_GetLayout.

Definition call (this : ptr) (op : TodoItem_op) : M unit :=
  match op with
  | op_GetName => GetName this;; ret tt
  | op_GetAuthor => GetAuthor this;; ret tt
  | op_GetTimesDone => GetTimesDone this;; ret tt
  | op_IncreaseTimesDone => IncreaseTimesDone this
  | op_GetLayout => TodoItem_GetLayout this;; ret tt
  end.

Fixpoint calls (this : ptr) (ops : list TodoItem_op) : M unit :=
  match ops with
  | [] => ret tt
  | op :: rest => call this op;; calls this rest
  end.

(** A sequence of calls, each on a record of its own. *)
Fixpoint calls_on (cs : list (ptr * TodoItem_op)) : M unit :=
  match cs with
  | [] => ret tt
  | (target, op) :: rest => call target op;; calls_on rest
  end.

Definition is_increase (op : TodoItem_op) : bool :=
  match op with op_IncreaseTimesDone => true | _ => false end.

Fixpoint count_increase (ops : list TodoItem_op) : nat :=
  match ops with
  | [] => 0
  | op :: rest => (if is_increase op then 1 else 0) + count_increase rest
  end.

(** A fresh record, [k] increments, then the counter is read. *)
Definition times_done_after (k : N) (new_name new_author : QString) : M Z :=
  do this <- new_TodoItem new_name new_author;
  iterate k (IncreaseTimesDone this);;
  GetTimesDone this.

(** A fresh record, [k] increments, then one more call with the counter
    read before and after it. *)
Definition times_done_around (k : N) (op : TodoItem_op) : M (Z * Z) :=
  do this <- new_TodoItem_default;
  iterate k (IncreaseTimesDone this);;
  do before <- GetTimesDone this;
  call this op;;
  do after <- GetTimesDone this;
  ret (before, after).

(** One [TodoListService] constructed at each of the given addresses,
    in turn. *)
Fixpoint constructions (services : list ptr) : M unit :=
  match services with
  | [] => ret tt
  | this :: rest => TodoListService_ctor this;; constructions rest
  end.

(** ** Observations of a state *)

(** The record a pointer designates, if it designates one. *)
Definition task_at (σ : State) (p : ptr) : option TodoItem :=
  match heap σ !! p with
  | Some (OTodoItem t) => Some t
  | _ => None
  end.

(** All the records of the free store. *)
Definition records (σ : State) : gmap ptr TodoItem :=
  omap (λ o, match o with OTodoItem t => Some t | _ => None end) (heap σ).

(** Every element of the global vector designates a record. *)
Definition wf (σ : State) : bool :=
  forallb (λ p, bool_decide (is_Some (task_at σ p))) (DefaultTodoList σ).

(** The three records every construction of the service adds. *)
Definition seed : list TodoItem :=
  [ mkTodoItem "Clean cat shit" "Andrew" 0;
    mkTodoItem "Wash dishes" "Victoria" 0;
    mkTodoItem "English language homework" "Tatyana" 0 ].

(** The state of a program that has constructed one service and
    nothing else. *)
Definition seeded : State :=
  mkState (list_to_map [ (1%positive, OTodoItem (mkTodoItem "Clean cat shit" "Andrew" 0));
                         (2%positive, OTodoItem (mkTodoItem "Wash dishes" "Victoria" 0));
                         (3%positive, OTodoItem (mkTodoItem "English language homework"
                                                            "Tatyana" 0)) ])
          [1%positive; 2%positive; 3%positive].

(** The value of the result, if there is one. *)
Definition result {A} (r : option (A * State)) : option A := fst <$> r.

(** The text of the button a pointer designates, if it designates one. *)
Definition button_text (σ : State) (p : ptr) : option QString :=
  match heap σ !! p with
  | Some (OQPushButton b) => Some (text b)
  | _ => None
  end.

(** The widgets of the layout a pointer designates, if it designates one. *)
Definition children (σ : State) (p : ptr) : option (list ptr) :=
  match heap σ !! p with
  | Some (OQVBoxLayout l) => Some (widgets l)
  | _ => None
  end.

(** The name of the record a pointer designates. *)
Definition name_at (σ : State) (p : ptr) : option QString := name <$> task_at σ p.

(** Every call of the sequence is made on a record. *)
Definition on_records (σ : State) (cs : list (ptr * TodoItem_op)) : bool :=
  forallb (λ c, bool_decide (is_Some (task_at σ c.1))) cs.

(** The global vector is sound: each element designates a record, and
    no two elements designate the same one. *)
Definition sound (σ : State) : bool :=
  wf σ && bool_decide (NoDup (DefaultTodoList σ)).

(** * Properties *)

(** ** Arithmetic of [int] *)

Lemma wrap_in_range z : Int.in_range z → Int.wrap z = z.
Proof.
  unfold Int.in_range, Int.INT_MIN, Int.INT_MAX, Int.wrap, Int.modulus, Int.width.
  intros Hz. rewrite Z.mod_small; lia.
Qed.

Lemma wrap_wrap_add x y : Int.wrap (Int.wrap x + y) = Int.wrap (x + y).
Proof.
  unfold Int.wrap, Int.modulus, Int.width.
  replace ((x + 2 ^ (32 - 1)) `mod` 2 ^ 32 - 2 ^ (32 - 1) + y + 2 ^ (32 - 1))
    with ((x + 2 ^ (32 - 1)) `mod` 2 ^ 32 + y) by lia.
  rewrite Zplus_mod_idemp_l. f_equal. f_equal. lia.
Qed.

Lemma add_wrap_1 z : Int.add (Int.wrap z) 1 = Int.wrap (z + 1).
Proof. apply wrap_wrap_add. Qed.

(** ** One step of each primitive *)

Ltac run :=
  unfold load_TodoItem, load_QPushButton, load_QVBoxLayout, bind, ret, fault, load, store;
  simpl.

Lemma new_fresh o σ :
  new_ o σ = Some (fresh (dom (heap σ)),
                   mkState (<[fresh (dom (heap σ)) := o]> (heap σ)) (DefaultTodoList σ)).
Proof. reflexivity. Qed.

Lemma fresh_not_allocated σ : heap σ !! fresh (dom (heap σ)) = None.
Proof. apply not_elem_of_dom, is_fresh. Qed.

Lemma allocated_not_fresh σ p o : heap σ !! p = Some o → p ≠ fresh (dom (heap σ)).
Proof. intros Hp ->. rewrite fresh_not_allocated in Hp. discriminate. Qed.

Lemma load_TodoItem_eq σ this t :
  heap σ !! this = Some (OTodoItem t) → load_TodoItem this σ = Some (t, σ).
Proof. intros H. run. by rewrite H. Qed.

Lemma task_at_Some σ p t : task_at σ p = Some t ↔ heap σ !! p = Some (OTodoItem t).
Proof.
  unfold task_at. split.
  - destruct (heap σ !! p) as [[]|]; congruence.
  - by intros ->.
Qed.

Lemma wf_Forall σ :
  wf σ = true ↔ Forall (λ p, ∃ t, heap σ !! p = Some (OTodoItem t)) (DefaultTodoList σ).
Proof.
  unfold wf. rewrite forallb_forall, Forall_forall.
  split; intros H p Hp.
  - apply list_elem_of_In, H, bool_decide_eq_true in Hp as [t Ht].
    exists t. by apply task_at_Some.
  - apply list_elem_of_In, H in Hp as [t Ht%task_at_Some].
    apply bool_decide_eq_true. by exists t.
Qed.

Lemma IncreaseTimesDone_eq σ this t :
  heap σ !! this = Some (OTodoItem t) →
  IncreaseTimesDone this σ =
    Some (tt, mkState (<[this := OTodoItem (mkTodoItem (name t) (author t)
                                              (Int.add (times_done t) 1))]> (heap σ))
                      (DefaultTodoList σ)).
Proof. intros H. unfold IncreaseTimesDone. run. by rewrite H. Qed.

Lemma TodoItem_GetLayout_eq σ this t :
  heap σ !! this = Some (OTodoItem t) →
  TodoItem_GetLayout this σ =
    Some (fresh (dom (heap σ)),
          mkState (<[fresh (dom (heap σ)) := OQPushButton (mkQPushButton (name t))]> (heap σ))
                  (DefaultTodoList σ)).
Proof.
  intros H. unfold TodoItem_GetLayout, new_QPushButton, QPushButton_setText, new_. run.
  rewrite H. simpl. rewrite lookup_insert_eq. simpl.
  by rewrite insert_insert_eq.
Qed.

Lemma QVBoxLayout_addWidget_eq σ layout l w :
  heap σ !! layout = Some (OQVBoxLayout l) →
  QVBoxLayout_addWidget layout w σ =
    Some (tt, mkState (<[layout := OQVBoxLayout (mkQVBoxLayout (widgets l ++ [w]))]> (heap σ))
                      (DefaultTodoList σ)).
Proof. intros H. unfold QVBoxLayout_addWidget. run. by rewrite H. Qed.

(** ** Repeated increments *)

Lemma iterate_succ k m : iterate (N.succ k) m = (m;; iterate k m).
Proof. unfold iterate. by rewrite N.iter_succ. Qed.

(** [k] increments move the counter [k] steps round the circle of
    [int] values; nothing else in the state moves. *)
Lemma iterate_IncreaseTimesDone k : ∀ σ this n a z,
  heap σ !! this = Some (OTodoItem (mkTodoItem n a (Int.wrap z))) →
  ∃ σ', iterate k (IncreaseTimesDone this) σ = Some (tt, σ')
      ∧ heap σ' !! this = Some (OTodoItem (mkTodoItem n a (Int.wrap (z + Z.of_N k))))
      ∧ (∀ q, q ≠ this → heap σ' !! q = heap σ !! q)
      ∧ DefaultTodoList σ' = DefaultTodoList σ.
Proof.
  induction k as [|k IH] using N.peano_ind; intros σ this n a z Hthis.
  - exists σ. rewrite Z.add_0_r. by repeat split.
  - rewrite iterate_succ. unfold bind at 1.
    rewrite (IncreaseTimesDone_eq _ _ _ Hthis). simpl.
    rewrite add_wrap_1.
    set (σ1 := mkState _ _).
    destruct (IH σ1 this n a (z + 1)) as (σ' & Hrun & Hat & Hframe & Hlist).
    { subst σ1. simpl. apply lookup_insert_eq. }
    exists σ'. split; [done|]. split; [|split].
    + rewrite Hat. f_equal. f_equal. f_equal. f_equal. lia.
    + intros q Hq. rewrite (Hframe q Hq). subst σ1. simpl. by apply lookup_insert_ne.
    + by rewrite Hlist.
Qed.

Lemma new_TodoItem_eq new_name new_author σ :
  ∃ this σ', new_TodoItem new_name new_author σ = Some (this, σ')
    ∧ heap σ !! this = None
    ∧ heap σ' = <[this := OTodoItem (mkTodoItem new_name new_author 0)]> (heap σ)
    ∧ DefaultTodoList σ' = DefaultTodoList σ.
Proof.
  eexists _, _. split; [apply new_fresh|]. split; [apply fresh_not_allocated|done].
Qed.

Lemma GetTimesDone_eq σ this t :
  heap σ !! this = Some (OTodoItem t) → GetTimesDone this σ = Some (times_done t, σ).
Proof. intros H. unfold GetTimesDone. run. by rewrite H. Qed.

Lemma times_done_after_eq k new_name new_author σ :
  result (times_done_after k new_name new_author σ) = Some (Int.wrap (Z.of_N k)).
Proof.
  unfold times_done_after.
  destruct (new_TodoItem_eq new_name new_author σ) as (this & σ0 & Hnew & _ & Hheap & _).
  unfold bind at 1. rewrite Hnew.
  destruct (iterate_IncreaseTimesDone k σ0 this new_name new_author 0)
    as (σ1 & Hrun & Hat & _).
  { rewrite Hheap. apply lookup_insert_eq. }
  unfold bind. rewrite Hrun, (GetTimesDone_eq _ _ _ Hat). done.
Qed.

Lemma GetName_eq σ this t :
  heap σ !! this = Some (OTodoItem t) → GetName this σ = Some (name t, σ).
Proof. intros H. unfold GetName. run. by rewrite H. Qed.

Lemma GetAuthor_eq σ this t :
  heap σ !! this = Some (OTodoItem t) → GetAuthor this σ = Some (author t, σ).
Proof. intros H. unfold GetAuthor. run. by rewrite H. Qed.

(** ** Sequences of calls on one record *)

Lemma count_increase_app ops1 ops2 :
  count_increase (ops1 ++ ops2) = (count_increase ops1 + count_increase ops2)%nat.
Proof. induction ops1 as [|op ops1 IH]; simpl; [done|]. rewrite IH. lia. Qed.

(** Whatever the calls, the counter has moved by the number of
    increments among them (round the circle of [int] values), the
    name and the author stand, and so does the global vector. *)
Lemma calls_times_done ops : ∀ σ this n a z,
  heap σ !! this = Some (OTodoItem (mkTodoItem n a (Int.wrap z))) →
  ∃ σ', calls this ops σ = Some (tt, σ')
      ∧ heap σ' !! this =
          Some (OTodoItem (mkTodoItem n a (Int.wrap (z + Z.of_nat (count_increase ops)))))
      ∧ DefaultTodoList σ' = DefaultTodoList σ.
Proof.
  induction ops as [|op ops IH]; intros σ this n a z Hthis.
  - exists σ. simpl. rewrite Z.add_0_r. by repeat split.
  - assert (∃ σ1, call this op σ = Some (tt, σ1)
        ∧ heap σ1 !! this =
            Some (OTodoItem (mkTodoItem n a
                    (Int.wrap (z + (if is_increase op then 1 else 0)))))
        ∧ DefaultTodoList σ1 = DefaultTodoList σ) as (σ1 & Hcall & Hat & Hlist).
    { destruct op; simpl.
      - exists σ. unfold bind. rewrite (GetName_eq _ _ _ Hthis), Z.add_0_r. done.
      - exists σ. unfold bind. rewrite (GetAuthor_eq _ _ _ Hthis), Z.add_0_r. done.
      - exists σ. unfold bind. rewrite (GetTimesDone_eq _ _ _ Hthis), Z.add_0_r. done.
      - eexists. rewrite (IncreaseTimesDone_eq _ _ _ Hthis). simpl.
        split; [done|]. simpl. rewrite lookup_insert_eq, add_wrap_1. done.
      - eexists. unfold bind. rewrite (TodoItem_GetLayout_eq _ _ _ Hthis). simpl.
        split; [done|]. simpl. rewrite Z.add_0_r.
        rewrite lookup_insert_ne by (symmetry; eapply allocated_not_fresh; done).
        done. }
    destruct (IH σ1 this n a _ Hat) as (σ' & Hrun & Hat' & Hlist').
    exists σ'. simpl. unfold bind at 1. rewrite Hcall. split; [done|]. split.
    + rewrite Hat'. f_equal. f_equal. f_equal. f_equal. destruct (is_increase op); lia.
    + congruence.
Qed.

(** ** [TodoItem] *)

(** C3. A record constructed with [(n, a)], whatever the strings (the
    constructor looks at neither), answers [n] to [GetName], [a] to
    [GetAuthor] and [0] to [GetTimesDone]; a default-constructed one
    answers ["Chill"], ["Andrew"] and [0]. *)
Theorem constructed_record_reads_back (σ : State) (n a : QString) :
  (∃ this σ', new_TodoItem n a σ = Some (this, σ')
     ∧ GetName this σ' = Some (n, σ')
     ∧ GetAuthor this σ' = Some (a, σ')
     ∧ GetTimesDone this σ' = Some (0, σ'))
  ∧ (∃ this σ', new_TodoItem_default σ = Some (this, σ')
     ∧ GetName this σ' = Some ("Chill"%string, σ')
     ∧ GetAuthor this σ' = Some ("Andrew"%string, σ')
     ∧ GetTimesDone this σ' = Some (0, σ')).
Proof.
  split.
  - destruct (new_TodoItem_eq n a σ) as (this & σ' & Hnew & _ & Hheap & _).
    assert (heap σ' !! this = Some (OTodoItem (mkTodoItem n a 0))) as Hat.
    { rewrite Hheap. apply lookup_insert_eq. }
    exists this, σ'. split; [done|].
    by rewrite (GetName_eq _ _ _ Hat), (GetAuthor_eq _ _ _ Hat), (GetTimesDone_eq _ _ _ Hat).
  - eexists _, _. unfold new_TodoItem_default. rewrite new_fresh. split; [done|].
    set (σ' := mkState _ _).
    assert (heap σ' !! fresh (dom (heap σ)) = Some (OTodoItem TodoItem_ctor_default)) as Hat.
    { subst σ'. simpl. apply lookup_insert_eq. }
    by rewrite (GetName_eq _ _ _ Hat), (GetAuthor_eq _ _ _ Hat), (GetTimesDone_eq _ _ _ Hat).
Qed.

(** C4, as stated, fails: after 2^31 increments of a fresh record the
    counter reads -2^31, not 2^31. *)
Lemma times_done_after_2_31 :
  result (times_done_after 2147483648 "" "" initial) = Some (-2147483648)
  ∧ result (times_done_after 2147483648 "" "" initial) ≠ Some (Z.of_N 2147483648).
Proof. rewrite times_done_after_eq. split; [reflexivity | discriminate]. Qed.

(** C4, amended. After [k] increments of a freshly constructed record,
    [GetTimesDone] returns [k], for every [k] from [0] to
    [INT_MAX = 2^31 - 1]. *)
Theorem times_done_counts (σ : State) (n a : QString) (k : N) :
  Z.of_N k ≤ Int.INT_MAX →
  result (times_done_after k n a σ) = Some (Z.of_N k).
Proof.
  intros Hk. rewrite times_done_after_eq. f_equal. apply wrap_in_range.
  unfold Int.in_range, Int.INT_MIN, Int.INT_MAX, Int.width in *. lia.
Qed.

Lemma times_done_counts_witness :
  Z.of_N 3 ≤ Int.INT_MAX
  ∧ result (times_done_after 3 "Wash dishes" "Victoria" initial) = Some (Z.of_N 3).
Proof.
  assert (Z.of_N 3 ≤ Int.INT_MAX) as H by (vm_compute; discriminate).
  split; [exact H | exact (times_done_counts initial "Wash dishes" "Victoria" 3 H)].
Defined.

(** C10. The counter is an [int]: after 2^31 increments of a freshly
    constructed record, [GetTimesDone] returns [INT_MIN = -2^31], a
    negative value. *)
Theorem times_done_wraps (σ : State) (n a : QString) :
  result (times_done_after (2 ^ 31) n a σ) = Some Int.INT_MIN ∧ Int.INT_MIN < 0.
Proof. rewrite times_done_after_eq. split; reflexivity. Qed.

(** C8. On a record, [GetName], [GetAuthor] and [GetTimesDone] return
    the field they are named after, and the state after the call is the
    state before it: no field of the record, and nothing else, has
    changed. *)
Theorem accessors_read_only (σ : State) (this : ptr) (t : TodoItem) :
  heap σ !! this = Some (OTodoItem t) →
  GetName this σ = Some (name t, σ)
  ∧ GetAuthor this σ = Some (author t, σ)
  ∧ GetTimesDone this σ = Some (times_done t, σ).
Proof.
  intros Hat.
  by rewrite (GetName_eq _ _ _ Hat), (GetAuthor_eq _ _ _ Hat), (GetTimesDone_eq _ _ _ Hat).
Qed.

Lemma accessors_read_only_witness :
  let t := mkTodoItem "Wash dishes" "Victoria" 7 in
  let σ := mkState {[ 5%positive := OTodoItem t ]} [5%positive] in
  GetName 5%positive σ = Some ("Wash dishes"%string, σ)
  ∧ GetAuthor 5%positive σ = Some ("Victoria"%string, σ)
  ∧ GetTimesDone 5%positive σ = Some (7, σ).
Proof.
  intros t σ. apply (accessors_read_only σ 5%positive t). reflexivity.
Defined.

(** C5, as stated, fails: on a record that has been incremented
    [INT_MAX] times, one more [IncreaseTimesDone] takes the counter
    from [2^31 - 1] down to [-2^31]. *)
Lemma times_done_decreases :
  ∃ before after,
    result (times_done_around 2147483647 op_IncreaseTimesDone initial) = Some (before, after)
    ∧ before = 2147483647 ∧ after = -2147483648
    ∧ ¬ (before ≤ after) ∧ ¬ (0 ≤ after).
Proof.
  exists 2147483647, (-2147483648). split; [|lia].
  unfold times_done_around, new_TodoItem_default.
  unfold bind at 1. rewrite new_fresh.
  set (σ0 := mkState _ _). set (this := fresh _).
  destruct (iterate_IncreaseTimesDone 2147483647 σ0 this "Chill" "Andrew" 0)
    as (σ1 & Hrun & Hat & _).
  { subst σ0. simpl. apply lookup_insert_eq. }
  unfold bind at 1. rewrite Hrun.
  unfold bind at 1. rewrite (GetTimesDone_eq _ _ _ Hat).
  unfold bind at 1. simpl call. rewrite (IncreaseTimesDone_eq _ _ _ Hat).
  unfold bind at 1. erewrite GetTimesDone_eq by (simpl; apply lookup_insert_eq).
  reflexivity.
Qed.

(** C5, amended. The counter of a freshly constructed record is [0];
    [GetName], [GetAuthor], [GetTimesDone] and [GetLayout] leave it as
    it is and [IncreaseTimesDone] adds one, so that over any sequence of
    calls with at most [INT_MAX = 2^31 - 1] increments the counter is
    the number of increments so far: it is never negative and never
    goes down. *)
Theorem times_done_monotone (σ : State) (n a : QString) (ops1 ops2 : list TodoItem_op) :
  Z.of_nat (count_increase (ops1 ++ ops2)) ≤ Int.INT_MAX →
  ∃ this σ0 σ1 σ2 td1 td2,
    new_TodoItem n a σ = Some (this, σ0)
    ∧ GetTimesDone this σ0 = Some (0, σ0)
    ∧ calls this ops1 σ0 = Some (tt, σ1)
    ∧ GetTimesDone this σ1 = Some (td1, σ1)
    ∧ calls this ops2 σ1 = Some (tt, σ2)
    ∧ GetTimesDone this σ2 = Some (td2, σ2)
    ∧ td1 = Z.of_nat (count_increase ops1)
    ∧ td2 = Z.of_nat (count_increase (ops1 ++ ops2))
    ∧ 0 ≤ td1 ≤ td2.
Proof.
  intros Hmax. rewrite count_increase_app in *.
  assert (∀ m : nat, (m ≤ count_increase ops1 + count_increase ops2)%nat →
            Int.wrap (Z.of_nat m) = Z.of_nat m) as Hsmall.
  { intros m Hm. apply wrap_in_range.
    unfold Int.in_range, Int.INT_MIN, Int.INT_MAX, Int.width in *. lia. }
  destruct (new_TodoItem_eq n a σ) as (this & σ0 & Hnew & _ & Hheap & _).
  assert (heap σ0 !! this = Some (OTodoItem (mkTodoItem n a (Int.wrap 0)))) as Hat0.
  { rewrite Hheap. apply lookup_insert_eq. }
  destruct (calls_times_done ops1 _ _ _ _ _ Hat0) as (σ1 & Hrun1 & Hat1 & _).
  destruct (calls_times_done ops2 _ _ _ _ _ Hat1) as (σ2 & Hrun2 & Hat2 & _).
  exists this, σ0, σ1, σ2, (Z.of_nat (count_increase ops1)),
    (Z.of_nat (count_increase ops1 + count_increase ops2)).
  split; [done|]. split; [by rewrite (GetTimesDone_eq _ _ _ Hat0)|].
  split; [done|]. split.
  { rewrite (GetTimesDone_eq _ _ _ Hat1). simpl. rewrite Z.add_0_l, Hsmall by lia. done. }
  split; [done|]. split.
  { rewrite (GetTimesDone_eq _ _ _ Hat2). simpl.
    rewrite Z.add_0_l, <- Nat2Z.inj_add, Hsmall by lia. done. }
  repeat split; lia.
Qed.

Lemma times_done_monotone_witness :
  Z.of_nat (count_increase ([op_IncreaseTimesDone; op_GetLayout] ++
                            [op_GetName; op_IncreaseTimesDone])) ≤ Int.INT_MAX
  ∧ ∃ this σ0 σ1 σ2 td1 td2,
    new_TodoItem "Wash dishes" "Victoria" initial = Some (this, σ0)
    ∧ GetTimesDone this σ0 = Some (0, σ0)
    ∧ calls this [op_IncreaseTimesDone; op_GetLayout] σ0 = Some (tt, σ1)
    ∧ GetTimesDone this σ1 = Some (td1, σ1)
    ∧ calls this [op_GetName; op_IncreaseTimesDone] σ1 = Some (tt, σ2)
    ∧ GetTimesDone this σ2 = Some (td2, σ2)
    ∧ td1 = Z.of_nat (count_increase [op_IncreaseTimesDone; op_GetLayout])
    ∧ td2 = Z.of_nat (count_increase ([op_IncreaseTimesDone; op_GetLayout] ++
                                      [op_GetName; op_IncreaseTimesDone]))
    ∧ 0 ≤ td1 ≤ td2.
Proof.
  assert (Z.of_nat (count_increase ([op_IncreaseTimesDone; op_GetLayout] ++
            [op_GetName; op_IncreaseTimesDone])) ≤ Int.INT_MAX) as H
    by (vm_compute; discriminate).
  split; [exact H|].
  exact (times_done_monotone initial "Wash dishes" "Victoria"
           [op_IncreaseTimesDone; op_GetLayout] [op_GetName; op_IncreaseTimesDone] H).
Defined.

(** ** Rendering *)

Lemma records_lookup σ p : records σ !! p = task_at σ p.
Proof.
  unfold records, task_at. rewrite lookup_omap.
  by destruct (heap σ !! p) as [[]|].
Qed.

(** Writing a widget where there was no record leaves the records as
    they were. *)
Lemma records_insert_widget σ p o :
  task_at σ p = None →
  (∀ t, o ≠ OTodoItem t) →
  records (mkState (<[p := o]> (heap σ)) (DefaultTodoList σ)) = records σ.
Proof.
  intros Hp Ho. apply map_eq. intros q. rewrite !records_lookup.
  unfold task_at in *. simpl. destruct (decide (p = q)) as [<-|Hne].
  - rewrite lookup_insert_eq. destruct o; [by destruct (Ho t)|done..].
  - by rewrite lookup_insert_ne.
Qed.

Lemma task_at_fresh σ : task_at σ (fresh (dom (heap σ))) = None.
Proof. unfold task_at. by rewrite fresh_not_allocated. Qed.

(** The loop of [TodoListService::GetLayout]: one new button per
    element, in order, appended to what the layout already held. *)
Lemma GetLayout_loop_spec todos : ∀ σ layout ws,
  heap σ !! layout = Some (OQVBoxLayout (mkQVBoxLayout ws)) →
  Forall (λ p, ∃ t, heap σ !! p = Some (OTodoItem t)) todos →
  ∃ σ' bs,
    GetLayout_loop layout todos σ = Some (tt, σ')
    ∧ heap σ' !! layout = Some (OQVBoxLayout (mkQVBoxLayout (ws ++ bs)))
    ∧ Forall2 (λ p b, ∃ t, heap σ !! p = Some (OTodoItem t)
                 ∧ heap σ' !! b = Some (OQPushButton (mkQPushButton (name t)))) todos bs
    ∧ Forall (λ b, heap σ !! b = None) bs
    ∧ NoDup bs
    ∧ (∀ q o, heap σ !! q = Some o → q ≠ layout → heap σ' !! q = Some o)
    ∧ records σ' = records σ
    ∧ DefaultTodoList σ' = DefaultTodoList σ.
Proof.
  induction todos as [|p rest IH]; intros σ layout ws Hlayout Htodos.
  - exists σ, []. simpl. rewrite app_nil_r.
    repeat split; auto using NoDup_nil_2.
  - apply Forall_cons in Htodos as [[t Hp] Hrest].
    set (b := fresh (dom (heap σ))).
    set (σ1 := mkState (<[b := OQPushButton (mkQPushButton (name t))]> (heap σ))
                       (DefaultTodoList σ)).
    set (σ2 := mkState (<[layout := OQVBoxLayout (mkQVBoxLayout (ws ++ [b]))]> (heap σ1))
                       (DefaultTodoList σ1)).
    assert (b ≠ layout) as Hbl by (symmetry; eapply allocated_not_fresh; done).
    assert (∀ q o, heap σ !! q = Some o → q ≠ layout → heap σ2 !! q = Some o) as Hframe.
    { intros q o Hq Hql. subst σ2 σ1. simpl.
      rewrite lookup_insert_ne by done.
      rewrite lookup_insert_ne by (symmetry; eapply allocated_not_fresh; done). done. }
    assert (∀ q, heap σ2 !! q = None → heap σ !! q = None) as Hgrow.
    { intros q Hq. destruct (heap σ !! q) as [o|] eqn:Hq0; [|done].
      destruct (decide (q = layout)) as [->|Hne].
      - subst σ2. simpl in Hq. by rewrite lookup_insert_eq in Hq.
      - by rewrite (Hframe q o Hq0 Hne) in Hq. }
    assert (records σ2 = records σ) as Hrec.
    { subst σ2. rewrite records_insert_widget; [| |done].
      - subst σ1. apply records_insert_widget; [apply task_at_fresh|done].
      - unfold task_at. subst σ1. simpl. rewrite lookup_insert_ne by done.
        by rewrite Hlayout. }
    destruct (IH σ2 layout (ws ++ [b])) as (σ' & bs & Hrun & Hl' & Hall & Hnew & Hnd & Hfr & Hr & Hd).
    { subst σ2. simpl. apply lookup_insert_eq. }
    { eapply Forall_impl; [exact Hrest|]. intros q [tq Hq]. exists tq.
      apply Hframe; [done|]. intros ->. congruence. }
    assert (heap σ2 !! b = Some (OQPushButton (mkQPushButton (name t)))) as Hb2.
    { subst σ2 σ1. simpl. rewrite lookup_insert_ne by done. apply lookup_insert_eq. }
    exists σ', (b :: bs). split; [|split; [|split; [|split; [|split; [|split; [|split]]]]]].
    + simpl. unfold bind at 1. rewrite (TodoItem_GetLayout_eq _ _ _ Hp). fold b. simpl.
      unfold bind at 1. fold σ1.
      rewrite (QVBoxLayout_addWidget_eq σ1 layout (mkQVBoxLayout ws)).
      * exact Hrun.
      * subst σ1. simpl. by rewrite lookup_insert_ne.
    + rewrite Hl'. by rewrite <- app_assoc.
    + constructor.
      * exists t. split; [done|]. by apply Hfr.
      * eapply Forall2_impl; [exact Hall|]. intros q w (tq & Hq & Hw).
        exists tq. split; [|done].
        apply task_at_Some. rewrite <- records_lookup, <- Hrec, records_lookup.
        by apply task_at_Some.
    + constructor; [apply fresh_not_allocated|].
      eapply Forall_impl; [exact Hnew|]. intros q Hq. by apply Hgrow.
    + constructor; [|done]. intros Hin.
      rewrite Forall_forall in Hnew. apply Hnew in Hin. congruence.
    + intros q o Hq Hql. apply Hfr; [|done]. by apply Hframe.
    + congruence.
    + by rewrite Hd.
Qed.

Lemma seeded_reached : TodoListService_ctor 9%positive initial = Some (tt, seeded).
Proof. vm_compute. reflexivity. Qed.

Lemma TodoListService_GetLayout_spec σ this :
  wf σ = true →
  ∃ layout σ' ws,
    TodoListService_GetLayout this σ = Some (layout, σ')
    ∧ heap σ !! layout = None
    ∧ heap σ' !! layout = Some (OQVBoxLayout (mkQVBoxLayout ws))
    ∧ Forall2 (λ p w, ∃ t, heap σ !! p = Some (OTodoItem t)
                 ∧ heap σ' !! w = Some (OQPushButton (mkQPushButton (name t))))
              (DefaultTodoList σ) ws
    ∧ Forall (λ w, heap σ !! w = None) ws
    ∧ NoDup (layout :: ws)
    ∧ (∀ q o, heap σ !! q = Some o → heap σ' !! q = Some o)
    ∧ records σ' = records σ
    ∧ DefaultTodoList σ' = DefaultTodoList σ.
Proof.
  intros Hwf%wf_Forall.
  set (layout := fresh (dom (heap σ))).
  set (σ0 := mkState (<[layout := OQVBoxLayout (mkQVBoxLayout [])]> (heap σ))
                     (DefaultTodoList σ)).
  assert (∀ q o, heap σ !! q = Some o → heap σ0 !! q = Some o ∧ q ≠ layout) as Hframe.
  { intros q o Hq.
    assert (q ≠ layout) as Hne by (eapply allocated_not_fresh; done).
    split; [|done]. subst σ0. simpl. by rewrite lookup_insert_ne. }
  destruct (GetLayout_loop_spec (DefaultTodoList σ) σ0 layout [])
    as (σ' & ws & Hrun & Hl' & Hall & Hnew & Hnd & Hfr & Hr & Hd).
  { subst σ0. simpl. apply lookup_insert_eq. }
  { eapply Forall_impl; [exact Hwf|]. intros q [tq Hq]. exists tq. by apply Hframe. }
  assert (records σ0 = records σ) as Hrec.
  { subst σ0. apply records_insert_widget; [apply task_at_fresh|done]. }
  exists layout, σ', ws. split; [|split; [|split; [|split; [|split; [|split; [|split; [|split]]]]]]].
  - unfold TodoListService_GetLayout, new_QVBoxLayout, GetTodos, deref.
    unfold bind at 1. rewrite new_fresh. fold layout. fold σ0.
    unfold bind at 1. unfold ret at 1. unfold bind at 1. simpl DefaultTodoList.
    unfold bind. rewrite Hrun. done.
  - apply fresh_not_allocated.
  - exact Hl'.
  - eapply Forall2_impl; [exact Hall|]. intros q w (tq & Hq & Hw).
    exists tq. split; [|done].
    apply task_at_Some. rewrite <- records_lookup, <- Hrec, records_lookup.
    by apply task_at_Some.
  - eapply Forall_impl; [exact Hnew|]. intros w Hw.
    destruct (heap σ !! w) as [o|] eqn:Hw0; [|done].
    apply Hframe in Hw0 as [Hw0 _]. congruence.
  - constructor; [|done]. intros Hin.
    rewrite Forall_forall in Hnew. apply Hnew in Hin.
    subst σ0. simpl in Hin. by rewrite lookup_insert_eq in Hin.
  - intros q o Hq. apply Hframe in Hq as [Hq Hne]. by apply Hfr.
  - congruence.
  - by rewrite Hd.
Qed.

(** C2. On a state whose global vector holds [M] pointers to records,
    [TodoListService::GetLayout] returns a layout that did not exist
    before, with exactly [M] children; for every [i < M] the [i]-th
    child is a button whose text is the name of the [i]-th record. *)
Theorem GetLayout_one_button_per_record (σ : State) (this : ptr) :
  wf σ = true →
  ∃ layout σ' ws,
    TodoListService_GetLayout this σ = Some (layout, σ')
    ∧ heap σ !! layout = None
    ∧ heap σ' !! layout = Some (OQVBoxLayout (mkQVBoxLayout ws))
    ∧ length ws = length (DefaultTodoList σ)
    ∧ ∀ i : nat, (i < length (DefaultTodoList σ))%nat →
        ∃ p t w, DefaultTodoList σ !! i = Some p
          ∧ heap σ !! p = Some (OTodoItem t)
          ∧ ws !! i = Some w
          ∧ heap σ' !! w = Some (OQPushButton (mkQPushButton (name t))).
Proof.
  intros Hwf.
  destruct (TodoListService_GetLayout_spec σ this Hwf)
    as (layout & σ' & ws & Hrun & Hnew & Hl' & Hall & _).
  exists layout, σ', ws. repeat (split; [done|]). split.
  - symmetry. by eapply Forall2_length.
  - intros i Hi. apply lookup_lt_is_Some in Hi as [p Hp].
    destruct (Forall2_lookup_l _ _ _ _ _ Hall Hp) as (w & Hw & t & Ht & Hb).
    by exists p, t, w.
Qed.

Lemma GetLayout_one_button_per_record_witness :
  wf seeded = true
  ∧ ∃ layout σ' ws,
    TodoListService_GetLayout 9%positive seeded = Some (layout, σ')
    ∧ heap seeded !! layout = None
    ∧ heap σ' !! layout = Some (OQVBoxLayout (mkQVBoxLayout ws))
    ∧ length ws = length (DefaultTodoList seeded)
    ∧ ∀ i : nat, (i < length (DefaultTodoList seeded))%nat →
        ∃ p t w, DefaultTodoList seeded !! i = Some p
          ∧ heap seeded !! p = Some (OTodoItem t)
          ∧ ws !! i = Some w
          ∧ heap σ' !! w = Some (OQPushButton (mkQPushButton (name t))).
Proof.
  assert (wf seeded = true) as H by (vm_compute; reflexivity).
  split; [exact H | exact (GetLayout_one_button_per_record seeded 9%positive H)].
Defined.

Example GetLayout_seeded :
  ∃ σ', TodoListService_GetLayout 9%positive seeded = Some (4%positive, σ')
    ∧ heap σ' !! 4%positive =
        Some (OQVBoxLayout (mkQVBoxLayout [5%positive; 6%positive; 7%positive]))
    ∧ heap σ' !! 5%positive = Some (OQPushButton (mkQPushButton "Clean cat shit"))
    ∧ heap σ' !! 6%positive = Some (OQPushButton (mkQPushButton "Wash dishes"))
    ∧ heap σ' !! 7%positive = Some (OQPushButton (mkQPushButton "English language homework")).
Proof. eexists. split; [vm_compute; reflexivity|]. repeat split. Qed.

(** C7. Every call of [TodoItem::GetLayout] on a record returns a
    button that did not exist before the call, whose text is the
    record's name; two calls in a row return two different buttons,
    and after the second call both carry that name. *)
Theorem GetLayout_new_button_each_call (σ : State) (this : ptr) (t : TodoItem) :
  heap σ !! this = Some (OTodoItem t) →
  ∃ b1 σ1 b2 σ2,
    TodoItem_GetLayout this σ = Some (b1, σ1)
    ∧ TodoItem_GetLayout this σ1 = Some (b2, σ2)
    ∧ heap σ !! b1 = None
    ∧ heap σ1 !! b1 = Some (OQPushButton (mkQPushButton (name t)))
    ∧ heap σ1 !! b2 = None
    ∧ b1 ≠ b2
    ∧ heap σ2 !! b1 = Some (OQPushButton (mkQPushButton (name t)))
    ∧ heap σ2 !! b2 = Some (OQPushButton (mkQPushButton (name t)))
    ∧ heap σ2 !! this = Some (OTodoItem t).
Proof.
  intros Hthis.
  set (b1 := fresh (dom (heap σ))).
  set (σ1 := mkState (<[b1 := OQPushButton (mkQPushButton (name t))]> (heap σ))
                     (DefaultTodoList σ)).
  assert (this ≠ b1) as Hne1 by (eapply allocated_not_fresh; done).
  assert (heap σ1 !! this = Some (OTodoItem t)) as Hthis1.
  { subst σ1. simpl. by rewrite lookup_insert_ne. }
  assert (heap σ1 !! b1 = Some (OQPushButton (mkQPushButton (name t)))) as Hb1.
  { subst σ1. simpl. apply lookup_insert_eq. }
  set (b2 := fresh (dom (heap σ1))).
  assert (b1 ≠ b2) as Hne by (eapply allocated_not_fresh; done).
  assert (this ≠ b2) as Hne2 by (eapply allocated_not_fresh; done).
  eexists b1, σ1, b2, _.
  split; [apply (TodoItem_GetLayout_eq _ _ _ Hthis)|].
  split; [apply (TodoItem_GetLayout_eq _ _ _ Hthis1)|].
  split; [apply fresh_not_allocated|]. split; [done|].
  split; [apply fresh_not_allocated|]. split; [done|]. simpl.
  split; [by rewrite lookup_insert_ne|]. split; [apply lookup_insert_eq|].
  by rewrite lookup_insert_ne.
Qed.

Lemma GetLayout_new_button_each_call_witness :
  ∃ b1 σ1 b2 σ2,
    TodoItem_GetLayout 2%positive seeded = Some (b1, σ1)
    ∧ TodoItem_GetLayout 2%positive σ1 = Some (b2, σ2)
    ∧ heap seeded !! b1 = None
    ∧ heap σ1 !! b1 = Some (OQPushButton (mkQPushButton "Wash dishes"))
    ∧ heap σ1 !! b2 = None
    ∧ b1 ≠ b2
    ∧ heap σ2 !! b1 = Some (OQPushButton (mkQPushButton "Wash dishes"))
    ∧ heap σ2 !! b2 = Some (OQPushButton (mkQPushButton "Wash dishes"))
    ∧ heap σ2 !! 2%positive = Some (OTodoItem (mkTodoItem "Wash dishes" "Victoria" 0)).
Proof.
  apply (GetLayout_new_button_each_call seeded 2%positive
           (mkTodoItem "Wash dishes" "Victoria" 0)).
  reflexivity.
Defined.

(** C9. Rendering does not touch the tasks: after
    [TodoListService::GetLayout], and after [TodoItem::GetLayout] on any
    record, the global vector is the one before the call, every object
    that existed still exists unchanged, and the records of the state
    (which addresses hold a record, and each one's name, author and
    counter) are those before the call. *)
Theorem rendering_read_only (σ : State) (service this : ptr) (t : TodoItem) :
  wf σ = true →
  heap σ !! this = Some (OTodoItem t) →
  (∃ layout σ', TodoListService_GetLayout service σ = Some (layout, σ')
     ∧ DefaultTodoList σ' = DefaultTodoList σ
     ∧ records σ' = records σ
     ∧ ∀ q o, heap σ !! q = Some o → heap σ' !! q = Some o)
  ∧ (∃ button σ', TodoItem_GetLayout this σ = Some (button, σ')
     ∧ DefaultTodoList σ' = DefaultTodoList σ
     ∧ records σ' = records σ
     ∧ ∀ q o, heap σ !! q = Some o → heap σ' !! q = Some o).
Proof.
  intros Hwf Hthis. split.
  - destruct (TodoListService_GetLayout_spec σ service Hwf)
      as (layout & σ' & ws & Hrun & _ & _ & _ & _ & _ & Hframe & Hrec & Hlist).
    by exists layout, σ'.
  - eexists _, _. split; [apply (TodoItem_GetLayout_eq _ _ _ Hthis)|].
    split; [done|]. split.
    + apply records_insert_widget; [apply task_at_fresh|done].
    + intros q o Hq. simpl.
      by rewrite lookup_insert_ne by (symmetry; eapply allocated_not_fresh; done).
Qed.

Lemma rendering_read_only_witness :
  wf seeded = true
  ∧ heap seeded !! 3%positive =
      Some (OTodoItem (mkTodoItem "English language homework" "Tatyana" 0))
  ∧ (∃ layout σ', TodoListService_GetLayout 9%positive seeded = Some (layout, σ')
       ∧ DefaultTodoList σ' = DefaultTodoList seeded
       ∧ records σ' = records seeded
       ∧ ∀ q o, heap seeded !! q = Some o → heap σ' !! q = Some o)
  ∧ (∃ button σ', TodoItem_GetLayout 3%positive seeded = Some (button, σ')
       ∧ DefaultTodoList σ' = DefaultTodoList seeded
       ∧ records σ' = records seeded
       ∧ ∀ q o, heap seeded !! q = Some o → heap σ' !! q = Some o).
Proof.
  assert (wf seeded = true) as Hwf by (vm_compute; reflexivity).
  assert (heap seeded !! 3%positive =
            Some (OTodoItem (mkTodoItem "English language homework" "Tatyana" 0))) as H3
    by reflexivity.
  split; [exact Hwf|]. split; [exact H3|].
  exact (rendering_read_only seeded 9%positive 3%positive _ Hwf H3).
Defined.

(** ** Construction of the service *)

Lemma TodoListService_ctor_spec this σ :
  ∃ p1 p2 p3 σ',
    TodoListService_ctor this σ = Some (tt, σ')
    ∧ DefaultTodoList σ' = DefaultTodoList σ ++ [p1; p2; p3]
    ∧ task_at σ' <$> [p1; p2; p3] = Some <$> seed
    ∧ Forall (λ p, heap σ !! p = None) [p1; p2; p3]
    ∧ NoDup [p1; p2; p3]
    ∧ (∀ q o, heap σ !! q = Some o → heap σ' !! q = Some o).
Proof.
  set (s1 := OTodoItem (mkTodoItem "Clean cat shit" "Andrew" 0)).
  set (s2 := OTodoItem (mkTodoItem "Wash dishes" "Victoria" 0)).
  set (s3 := OTodoItem (mkTodoItem "English language homework" "Tatyana" 0)).
  set (p1 := fresh (dom (heap σ))).
  set (σ1 := mkState (<[p1 := s1]> (heap σ)) (DefaultTodoList σ)).
  set (p2 := fresh (dom (heap σ1))).
  set (σ2 := mkState (<[p2 := s2]> (heap σ1)) (DefaultTodoList σ1)).
  set (p3 := fresh (dom (heap σ2))).
  set (σ3 := mkState (<[p3 := s3]> (heap σ2)) (DefaultTodoList σ2)).
  assert (∀ τ o q v, heap τ !! q = Some v →
            <[fresh (dom (heap τ)) := o]> (heap τ) !! q = Some v) as Hkeep.
  { intros τ o q v Hq.
    by rewrite lookup_insert_ne by (symmetry; eapply allocated_not_fresh; done). }
  assert (∀ τ o q, <[fresh (dom (heap τ)) := o]> (heap τ) !! q = None →
            heap τ !! q = None) as Hgrow.
  { intros τ o q Hq. by apply lookup_insert_None in Hq as [? _]. }
  assert (heap σ1 !! p1 = Some s1) as H11 by apply lookup_insert_eq.
  assert (heap σ2 !! p2 = Some s2) as H22 by apply lookup_insert_eq.
  assert (heap σ3 !! p3 = Some s3) as H33 by apply lookup_insert_eq.
  assert (heap σ2 !! p1 = Some s1) as H21 by by apply Hkeep.
  assert (heap σ3 !! p1 = Some s1) as H31 by by apply Hkeep.
  assert (heap σ3 !! p2 = Some s2) as H32 by by apply Hkeep.
  assert (heap σ !! p1 = None) as H01 by apply fresh_not_allocated.
  assert (heap σ1 !! p2 = None) as H12 by apply fresh_not_allocated.
  assert (heap σ2 !! p3 = None) as H23 by apply fresh_not_allocated.
  set (σ' := mkState (heap σ3) (((DefaultTodoList σ ++ [p1]) ++ [p2]) ++ [p3])).
  exists p1, p2, p3, σ'.
  split; [reflexivity|]. split; [simpl; by rewrite <- !app_assoc|].
  split; [|split; [|split]].
  - change (task_at σ' <$> [p1; p2; p3])
      with [task_at σ' p1; task_at σ' p2; task_at σ' p3].
    by rewrite (proj2 (task_at_Some σ' p1 _) H31), (proj2 (task_at_Some σ' p2 _) H32),
      (proj2 (task_at_Some σ' p3 _) H33).
  - repeat constructor.
    + done.
    + exact (Hgrow σ s1 p2 H12).
    + exact (Hgrow σ s1 p3 (Hgrow σ1 s2 p3 H23)).
  - repeat constructor.
    + rewrite !elem_of_cons, elem_of_nil. intros [?|[?|[]]]; congruence.
    + rewrite !elem_of_cons, elem_of_nil. intros [?|[]]; congruence.
    + apply not_elem_of_nil.
  - intros q o Hq. simpl. by do 3 apply Hkeep.
Qed.

Example ctor_twice :
  result ((TodoListService_ctor 8%positive;; TodoListService_ctor 9%positive;;
           deref ref_DefaultTodoList) initial)
  = Some [1%positive; 2%positive; 3%positive; 4%positive; 5%positive; 6%positive].
Proof. vm_compute. reflexivity. Qed.

Lemma constructions_spec services : ∀ σ,
  ∃ σ' new,
    constructions services σ = Some (tt, σ')
    ∧ DefaultTodoList σ' = DefaultTodoList σ ++ new
    ∧ task_at σ' <$> new = Some <$> concat (replicate (length services) seed)
    ∧ Forall (λ p, heap σ !! p = None) new
    ∧ NoDup new
    ∧ (∀ q o, heap σ !! q = Some o → heap σ' !! q = Some o).
Proof.
  induction services as [|this rest IH]; intros σ.
  - exists σ, []. simpl. rewrite app_nil_r. repeat split; auto using NoDup_nil_2.
  - destruct (TodoListService_ctor_spec this σ)
      as (p1 & p2 & p3 & σ1 & Hctor & Hlist & Hseed & Hnew & Hnd & Hframe).
    destruct (IH σ1) as (σ' & new & Hrun & Hlist' & Hseed' & Hnew' & Hnd' & Hframe').
    assert (∀ p, p ∈ [p1; p2; p3] → is_Some (task_at σ1 p)) as Hsome.
    { intros p Hp. apply (list_elem_of_fmap_2 (task_at σ1)) in Hp.
      rewrite Hseed in Hp. apply list_elem_of_fmap in Hp as (t & -> & _). by eexists. }
    assert (∀ p t, task_at σ1 p = Some t → task_at σ' p = Some t) as Hkeep.
    { intros p t Hp%task_at_Some. by apply task_at_Some, Hframe'. }
    exists σ', ([p1; p2; p3] ++ new).
    split; [|split; [|split; [|split; [|split]]]].
    + simpl. unfold bind at 1. by rewrite Hctor.
    + by rewrite Hlist', Hlist, <- app_assoc.
    + change (concat (replicate (length (this :: rest)) seed))
        with (seed ++ concat (replicate (length rest) seed)).
      rewrite !fmap_app, Hseed'. f_equal. rewrite <- Hseed.
      apply list_eq_Forall2, Forall2_fmap, Forall_Forall2_diag, Forall_forall.
      intros p Hp. destruct (Hsome p Hp) as [t Ht]. by rewrite Ht, (Hkeep _ _ Ht).
    + apply Forall_app. split; [done|].
      eapply Forall_impl; [exact Hnew'|]. intros q Hq.
      destruct (heap σ !! q) as [o|] eqn:Hq0; [|done].
      apply Hframe in Hq0. congruence.
    + apply NoDup_app. split; [done|]. split; [|done].
      intros p Hp Hp'. rewrite Forall_forall in Hnew'. apply Hnew' in Hp'.
      destruct (Hsome p Hp) as [t Ht%task_at_Some]. congruence.
    + intros q o Hq. by apply Hframe', Hframe.
Qed.

(** C1. Whatever the state (seeded before or not), constructing a
    [TodoListService] appends to the global vector three pointers to
    three new records, ("Clean cat shit", "Andrew"), ("Wash dishes",
    "Victoria") and ("English language homework", "Tatyana"), in that
    order, and changes no object that existed; hence [N] constructions
    in a row append [3 * N] pointers, to [N] copies of the three
    records, and what the vector held before is still at its front,
    pointing to unchanged records. *)
Theorem construction_appends_seed (σ : State) (this : ptr) (services : list ptr) :
  (∃ p1 p2 p3 σ',
     TodoListService_ctor this σ = Some (tt, σ')
     ∧ DefaultTodoList σ' = DefaultTodoList σ ++ [p1; p2; p3]
     ∧ task_at σ' <$> [p1; p2; p3] =
         [ Some (mkTodoItem "Clean cat shit" "Andrew" 0);
           Some (mkTodoItem "Wash dishes" "Victoria" 0);
           Some (mkTodoItem "English language homework" "Tatyana" 0) ]
     ∧ Forall (λ p, heap σ !! p = None) [p1; p2; p3]
     ∧ (∀ q o, heap σ !! q = Some o → heap σ' !! q = Some o))
  ∧ (∃ σ' new,
       constructions services σ = Some (tt, σ')
       ∧ DefaultTodoList σ' = DefaultTodoList σ ++ new
       ∧ length new = (3 * length services)%nat
       ∧ task_at σ' <$> new = Some <$> concat (replicate (length services) seed)
       ∧ Forall (λ p, heap σ !! p = None) new
       ∧ (∀ q o, heap σ !! q = Some o → heap σ' !! q = Some o)).
Proof.
  split.
  - destruct (TodoListService_ctor_spec this σ)
      as (p1 & p2 & p3 & σ' & Hctor & Hlist & Hseed & Hnew & _ & Hframe).
    by exists p1, p2, p3, σ'.
  - destruct (constructions_spec services σ)
      as (σ' & new & Hrun & Hlist & Hseed & Hnew & _ & Hframe).
    exists σ', new. repeat (split; [done|]). split; [|done].
    apply (f_equal length) in Hseed. rewrite !length_fmap in Hseed.
    rewrite Hseed. clear. induction services as [|? ? IH]; [done|].
    simpl. rewrite IH. lia.
Qed.

(** C6. [GetTodos] returns, for every service and in every state, a
    reference to the one global vector, never to another vector object
    (no copy is made: the state is unchanged).  What is read through
    the reference is the global vector as it is when it is read: after
    any number of later constructions, a reference obtained before them
    shows the pointers they appended, whereas a vector object that was
    copied before still holds what it held; and a [push_back] through
    the reference lands in the global vector. *)
Theorem GetTodos_is_the_global_vector
    (σ : State) (this1 this2 x : ptr) (services : list ptr) :
  ∃ r,
    GetTodos this1 σ = Some (r, σ)
    ∧ GetTodos this2 σ = Some (r, σ)
    ∧ (∀ c, r ≠ ref_vector c)
    ∧ (∀ τ, deref r τ = Some (DefaultTodoList τ, τ))
    ∧ (∃ σ' new,
         constructions services σ = Some (tt, σ')
         ∧ length new = (3 * length services)%nat
         ∧ deref r σ' = Some (DefaultTodoList σ ++ new, σ')
         ∧ ∀ c v, heap σ !! c = Some (OVector v) →
             deref (ref_vector c) σ' = Some (v, σ'))
    ∧ (∃ σ',
         push_back r x σ = Some (tt, σ')
         ∧ DefaultTodoList σ' = DefaultTodoList σ ++ [x]
         ∧ heap σ' = heap σ).
Proof.
  exists ref_DefaultTodoList. do 4 (split; [done|]). split.
  - destruct (constructions_spec services σ)
      as (σ' & new & Hrun & Hlist & Hseed & _ & _ & Hframe).
    exists σ', new. split; [done|]. split; [|split].
    + apply (f_equal length) in Hseed. rewrite !length_fmap in Hseed.
      rewrite Hseed. clear. induction services as [|? ? IH]; [done|].
      simpl in *. rewrite IH. lia.
    + simpl. by rewrite Hlist.
    + intros c v Hc. unfold deref, load_vector. run. by rewrite (Hframe _ _ Hc).
  - by eexists.
Qed.

(** A reference and a copy, side by side: with a copy of the global
    vector at address 4, one more construction shows through the
    reference that [GetTodos] returned before it, not in the copy. *)
Example reference_and_copy :
  let σ := mkState (<[4%positive := OVector [1%positive; 2%positive; 3%positive]]>
                      (heap seeded)) (DefaultTodoList seeded) in
  result ((do r <- GetTodos 8%positive;
           TodoListService_ctor 9%positive;;
           do through_reference <- deref r;
           do in_copy <- deref (ref_vector 4%positive);
           ret (through_reference, in_copy)) σ)
  = Some ([1%positive; 2%positive; 3%positive; 5%positive; 6%positive; 7%positive],
          [1%positive; 2%positive; 3%positive]).
Proof. vm_compute. reflexivity. Qed.

(** ** The global vector stays sound *)

Lemma sound_spec σ :
  sound σ = true ↔ wf σ = true ∧ NoDup (DefaultTodoList σ).
Proof. unfold sound. by rewrite andb_true_iff, bool_decide_eq_true. Qed.

Lemma wf_task_at σ : wf σ = true ↔ Forall (λ p, is_Some (task_at σ p)) (DefaultTodoList σ).
Proof.
  rewrite wf_Forall. apply Forall_proper; [|done]. intros p. split.
  - intros [t Ht%task_at_Some]. by exists t.
  - intros [t Ht%task_at_Some]. by exists t.
Qed.

(** Soundness only looks at the vector and at the records. *)
Lemma sound_same_tasks σ σ' :
  DefaultTodoList σ' = DefaultTodoList σ →
  (∀ p, is_Some (task_at σ p) → is_Some (task_at σ' p)) →
  sound σ = true → sound σ' = true.
Proof.
  intros Hlist Hrec [Hwf Hnd]%sound_spec. apply sound_spec. rewrite Hlist.
  split; [|done]. apply wf_task_at. rewrite Hlist.
  apply wf_task_at in Hwf. eapply Forall_impl; [exact Hwf|]. done.
Qed.

(** X1. Constructing a service keeps the vector sound: it appends
    three pointers, which designate records and differ from each other
    and from every element the vector held, and the vector with them is
    sound again. *)
Theorem construction_keeps_sound (σ : State) (this : ptr) :
  sound σ = true →
  ∃ p1 p2 p3 σ',
    TodoListService_ctor this σ = Some (tt, σ')
    ∧ DefaultTodoList σ' = DefaultTodoList σ ++ [p1; p2; p3]
    ∧ Forall (λ p, is_Some (task_at σ' p)) [p1; p2; p3]
    ∧ NoDup [p1; p2; p3]
    ∧ (∀ p, p ∈ DefaultTodoList σ → p ∉ [p1; p2; p3])
    ∧ sound σ' = true.
Proof.
  intros [Hwf Hnd]%sound_spec.
  destruct (TodoListService_ctor_spec this σ)
    as (p1 & p2 & p3 & σ' & Hctor & Hlist & Hseed & Hnew & Hnd' & Hframe).
  assert (Forall (λ p, is_Some (task_at σ' p)) [p1; p2; p3]) as Hrec.
  { apply Forall_forall. intros p Hp.
    apply (list_elem_of_fmap_2 (task_at σ')) in Hp. rewrite Hseed in Hp.
    apply list_elem_of_fmap in Hp as (t & -> & _). by eexists. }
  assert (∀ p, p ∈ DefaultTodoList σ → p ∉ [p1; p2; p3]) as Hdisj.
  { intros p Hp Hp'. apply wf_Forall in Hwf.
    rewrite Forall_forall in Hwf, Hnew.
    destruct (Hwf p Hp) as [t Ht]. rewrite (Hnew p Hp') in Ht. discriminate. }
  exists p1, p2, p3, σ'. do 5 (split; [done|]). apply sound_spec. split.
  - apply wf_task_at. rewrite Hlist. apply Forall_app. split; [|done].
    apply wf_Forall in Hwf. eapply Forall_impl; [exact Hwf|].
    intros p [t Ht]. exists t. by apply task_at_Some, Hframe.
  - rewrite Hlist. apply NoDup_app. done.
Qed.

Lemma construction_keeps_sound_witness :
  sound seeded = true
  ∧ ∃ p1 p2 p3 σ',
    TodoListService_ctor 9%positive seeded = Some (tt, σ')
    ∧ DefaultTodoList σ' = DefaultTodoList seeded ++ [p1; p2; p3]
    ∧ Forall (λ p, is_Some (task_at σ' p)) [p1; p2; p3]
    ∧ NoDup [p1; p2; p3]
    ∧ (∀ p, p ∈ DefaultTodoList seeded → p ∉ [p1; p2; p3])
    ∧ sound σ' = true.
Proof.
  assert (sound seeded = true) as H by (vm_compute; reflexivity).
  split; [exact H | exact (construction_keeps_sound seeded 9%positive H)].
Defined.

(** What a call of a member function of [TodoItem] does to the other
    objects: a record stays a record, with its name and its author. *)
Lemma call_keeps_records σ this t op :
  heap σ !! this = Some (OTodoItem t) →
  ∃ σ', call this op σ = Some (tt, σ')
    ∧ DefaultTodoList σ' = DefaultTodoList σ
    ∧ (∀ q tq, heap σ !! q = Some (OTodoItem tq) →
         ∃ tq', heap σ' !! q = Some (OTodoItem tq')
           ∧ name tq' = name tq ∧ author tq' = author tq
           ∧ (q ≠ this → tq' = tq)).
Proof.
  intros Hthis. destruct op; simpl.
  - exists σ. unfold bind. rewrite (GetName_eq _ _ _ Hthis). eauto 10.
  - exists σ. unfold bind. rewrite (GetAuthor_eq _ _ _ Hthis). eauto 10.
  - exists σ. unfold bind. rewrite (GetTimesDone_eq _ _ _ Hthis). eauto 10.
  - eexists. rewrite (IncreaseTimesDone_eq _ _ _ Hthis). split; [done|].
    split; [done|]. intros q tq Hq. simpl.
    destruct (decide (this = q)) as [<-|Hne].
    + rewrite lookup_insert_eq. eexists. split; [done|].
      assert (tq = t) as -> by congruence. done.
    + rewrite lookup_insert_ne by done. eauto.
  - eexists. unfold bind. rewrite (TodoItem_GetLayout_eq _ _ _ Hthis).
    split; [done|]. split; [done|]. intros q tq Hq. simpl.
    rewrite lookup_insert_ne by (symmetry; eapply allocated_not_fresh; done).
    eauto.
Qed.

(** X2. No member function of [TodoItem], called on any record, and no
    rendering by the service, breaks the soundness of the vector. *)
Theorem calls_and_rendering_keep_sound
    (σ : State) (service this : ptr) (t : TodoItem) (op : TodoItem_op) :
  sound σ = true →
  heap σ !! this = Some (OTodoItem t) →
  (∃ σ', call this op σ = Some (tt, σ') ∧ sound σ' = true)
  ∧ (∃ layout σ', TodoListService_GetLayout service σ = Some (layout, σ')
       ∧ sound σ' = true).
Proof.
  intros Hsound Hthis. split.
  - destruct (call_keeps_records σ this t op Hthis) as (σ' & Hcall & Hlist & Hrec).
    exists σ'. split; [done|]. apply (sound_same_tasks σ); [done| |done].
    intros p [tp Hp%task_at_Some]. destruct (Hrec p tp Hp) as (tp' & Hp' & _).
    exists tp'. by apply task_at_Some.
  - pose proof Hsound as [Hwf _]%sound_spec.
    destruct (TodoListService_GetLayout_spec σ service Hwf)
      as (layout & σ' & ws & Hrun & _ & _ & _ & _ & _ & Hframe & _ & Hlist).
    exists layout, σ'. split; [done|]. apply (sound_same_tasks σ); [done| |done].
    intros p [tp Hp%task_at_Some]. exists tp. by apply task_at_Some, Hframe.
Qed.

Lemma calls_and_rendering_keep_sound_witness :
  sound seeded = true
  ∧ heap seeded !! 1%positive = Some (OTodoItem (mkTodoItem "Clean cat shit" "Andrew" 0))
  ∧ (∃ σ', call 1%positive op_IncreaseTimesDone seeded = Some (tt, σ') ∧ sound σ' = true)
  ∧ (∃ layout σ', TodoListService_GetLayout 9%positive seeded = Some (layout, σ')
       ∧ sound σ' = true).
Proof.
  assert (sound seeded = true) as H by (vm_compute; reflexivity).
  assert (heap seeded !! 1%positive =
            Some (OTodoItem (mkTodoItem "Clean cat shit" "Andrew" 0))) as H1 by reflexivity.
  split; [exact H|]. split; [exact H1|].
  exact (calls_and_rendering_keep_sound seeded 9%positive 1%positive _
           op_IncreaseTimesDone H H1).
Defined.

(** ** More on rendering *)

Lemma button_text_Some σ p s :
  heap σ !! p = Some (OQPushButton (mkQPushButton s)) → button_text σ p = Some s.
Proof. unfold button_text. by intros ->. Qed.

Lemma children_Some σ p ws :
  heap σ !! p = Some (OQVBoxLayout (mkQVBoxLayout ws)) → children σ p = Some ws.
Proof. unfold children. by intros ->. Qed.

(** The texts of the buttons of a rendering are the names of the
    records, element by element. *)
Lemma texts_are_names (σ σ' : State) (todos ws : list ptr) :
  Forall2 (λ p w, ∃ t, heap σ !! p = Some (OTodoItem t)
             ∧ heap σ' !! w = Some (OQPushButton (mkQPushButton (name t)))) todos ws →
  button_text σ' <$> ws = name_at σ <$> todos.
Proof.
  induction 1 as [|p w todos ws (t & Hp & Hw) _ IH]; [done|].
  rewrite !fmap_cons, IH. f_equal.
  rewrite (button_text_Some _ _ _ Hw). unfold name_at.
  by rewrite (proj2 (task_at_Some σ p t) Hp).
Qed.

Lemma name_at_same_records σ σ' p : records σ' = records σ → name_at σ' p = name_at σ p.
Proof. intros Hrec. unfold name_at. by rewrite <- !records_lookup, Hrec. Qed.

Lemma wf_same_records σ σ' :
  records σ' = records σ → DefaultTodoList σ' = DefaultTodoList σ →
  wf σ = true → wf σ' = true.
Proof.
  intros Hrec Hlist Hwf%wf_task_at. apply wf_task_at. rewrite Hlist.
  eapply Forall_impl; [exact Hwf|]. intros p Hp.
  by rewrite <- records_lookup, Hrec, records_lookup.
Qed.

(** X3. The children of the layout that [TodoListService::GetLayout]
    returns are pairwise different buttons, none of which existed
    before the call, and the layout is not among them. *)
Theorem GetLayout_children_distinct (σ : State) (this : ptr) :
  wf σ = true →
  ∃ layout σ' ws,
    TodoListService_GetLayout this σ = Some (layout, σ')
    ∧ children σ' layout = Some ws
    ∧ NoDup ws
    ∧ (layout ∉ ws)
    ∧ Forall (λ w, heap σ !! w = None ∧ is_Some (button_text σ' w)) ws.
Proof.
  intros Hwf.
  destruct (TodoListService_GetLayout_spec σ this Hwf)
    as (layout & σ' & ws & Hrun & _ & Hl' & Hall & Hnew & Hnd & _).
  exists layout, σ', ws. split; [done|]. split; [by apply children_Some|].
  apply NoDup_cons in Hnd as [Hl Hnd]. split; [done|]. split; [done|].
  apply Forall_forall. intros w Hw. rewrite Forall_forall in Hnew.
  split; [by apply Hnew|].
  apply list_elem_of_lookup in Hw as [i Hi].
  destruct (Forall2_lookup_r _ _ _ _ _ Hall Hi) as (p & _ & t & _ & Hb).
  exists (name t). by apply button_text_Some.
Qed.

Lemma GetLayout_children_distinct_witness :
  wf seeded = true
  ∧ ∃ layout σ' ws,
    TodoListService_GetLayout 9%positive seeded = Some (layout, σ')
    ∧ children σ' layout = Some ws
    ∧ NoDup ws
    ∧ (layout ∉ ws)
    ∧ Forall (λ w, heap seeded !! w = None ∧ is_Some (button_text σ' w)) ws.
Proof.
  assert (wf seeded = true) as H by (vm_compute; reflexivity).
  split; [exact H | exact (GetLayout_children_distinct seeded 9%positive H)].
Defined.

(** X4. Two renderings in a row give two different layouts that share
    no button; the second rendering leaves the first layout and its
    buttons as they were, and both layouts show the same texts in the
    same order. *)
Theorem GetLayout_twice_disjoint (σ : State) (this1 this2 : ptr) :
  wf σ = true →
  ∃ layout1 σ1 ws1 layout2 σ2 ws2,
    TodoListService_GetLayout this1 σ = Some (layout1, σ1)
    ∧ TodoListService_GetLayout this2 σ1 = Some (layout2, σ2)
    ∧ children σ1 layout1 = Some ws1
    ∧ children σ2 layout1 = Some ws1
    ∧ children σ2 layout2 = Some ws2
    ∧ layout1 ≠ layout2
    ∧ (∀ w, w ∈ ws1 → w ∉ ws2)
    ∧ button_text σ2 <$> ws1 = button_text σ1 <$> ws1
    ∧ button_text σ2 <$> ws2 = button_text σ2 <$> ws1.
Proof.
  intros Hwf.
  destruct (TodoListService_GetLayout_spec σ this1 Hwf)
    as (l1 & σ1 & ws1 & Hrun1 & _ & Hl1 & Hall1 & _ & _ & _ & Hrec1 & Hlist1).
  assert (wf σ1 = true) as Hwf1 by by apply (wf_same_records σ).
  destruct (TodoListService_GetLayout_spec σ1 this2 Hwf1)
    as (l2 & σ2 & ws2 & Hrun2 & Hfresh2 & Hl2 & Hall2 & Hnew2 & _ & Hframe2 & _ & _).
  assert (∀ w, w ∈ ws1 → ∃ s, heap σ1 !! w = Some (OQPushButton (mkQPushButton s)))
    as Hbuttons.
  { intros w [i Hi]%list_elem_of_lookup.
    destruct (Forall2_lookup_r _ _ _ _ _ Hall1 Hi) as (p & _ & t & _ & Hb). eauto. }
  assert (button_text σ2 <$> ws1 = button_text σ1 <$> ws1) as Hsame.
  { apply list_eq_Forall2, Forall2_fmap, Forall_Forall2_diag, Forall_forall.
    intros w [s Hs]%Hbuttons.
    by rewrite (button_text_Some _ _ _ Hs), (button_text_Some _ _ _ (Hframe2 _ _ Hs)). }
  exists l1, σ1, ws1, l2, σ2, ws2.
  split; [done|]. split; [done|]. split; [by apply children_Some|].
  split; [by apply children_Some, Hframe2|]. split; [by apply children_Some|].
  split; [intros ->; congruence|]. split; [|split; [done|]].
  - intros w [s Hs]%Hbuttons Hw2. rewrite Forall_forall in Hnew2.
    rewrite (Hnew2 w Hw2) in Hs. discriminate.
  - rewrite Hsame, (texts_are_names _ _ _ _ Hall1), (texts_are_names _ _ _ _ Hall2), Hlist1.
    apply list_eq_Forall2, Forall2_fmap, Forall_Forall2_diag, Forall_forall.
    intros p _. by apply name_at_same_records.
Qed.

Lemma GetLayout_twice_disjoint_witness :
  wf seeded = true
  ∧ ∃ layout1 σ1 ws1 layout2 σ2 ws2,
    TodoListService_GetLayout 8%positive seeded = Some (layout1, σ1)
    ∧ TodoListService_GetLayout 9%positive σ1 = Some (layout2, σ2)
    ∧ children σ1 layout1 = Some ws1
    ∧ children σ2 layout1 = Some ws1
    ∧ children σ2 layout2 = Some ws2
    ∧ layout1 ≠ layout2
    ∧ (∀ w, w ∈ ws1 → w ∉ ws2)
    ∧ button_text σ2 <$> ws1 = button_text σ1 <$> ws1
    ∧ button_text σ2 <$> ws2 = button_text σ2 <$> ws1.
Proof.
  assert (wf seeded = true) as H by (vm_compute; reflexivity).
  split; [exact H | exact (GetLayout_twice_disjoint seeded 8%positive 9%positive H)].
Defined.

(** X5. A layout is a snapshot: after a rendering of [M] records,
    constructing another service grows the vector to [M + 3] elements
    but leaves the layout with its [M] buttons and their texts; only a
    new rendering shows the new records. *)
Theorem layout_is_snapshot (σ : State) (this other : ptr) :
  wf σ = true →
  ∃ layout σ1 ws σ2 layout' σ3 ws',
    TodoListService_GetLayout this σ = Some (layout, σ1)
    ∧ children σ1 layout = Some ws
    ∧ TodoListService_ctor other σ1 = Some (tt, σ2)
    ∧ children σ2 layout = Some ws
    ∧ button_text σ2 <$> ws = button_text σ1 <$> ws
    ∧ length ws = length (DefaultTodoList σ)
    ∧ length (DefaultTodoList σ2) = (length ws + 3)%nat
    ∧ TodoListService_GetLayout this σ2 = Some (layout', σ3)
    ∧ children σ3 layout' = Some ws'
    ∧ length ws' = (length ws + 3)%nat.
Proof.
  intros Hwf.
  destruct (TodoListService_GetLayout_spec σ this Hwf)
    as (l1 & σ1 & ws & Hrun1 & _ & Hl1 & Hall1 & _ & _ & _ & Hrec1 & Hlist1).
  assert (wf σ1 = true) as Hwf1 by by apply (wf_same_records σ).
  destruct (TodoListService_ctor_spec other σ1)
    as (p1 & p2 & p3 & σ2 & Hctor & Hlist2 & Hseed & _ & _ & Hframe2).
  assert (wf σ2 = true) as Hwf2.
  { apply wf_task_at. rewrite Hlist2. apply Forall_app. split.
    - apply wf_Forall in Hwf1. eapply Forall_impl; [exact Hwf1|].
      intros p [t Ht]. exists t. by apply task_at_Some, Hframe2.
    - apply Forall_forall. intros p Hp.
      apply (list_elem_of_fmap_2 (task_at σ2)) in Hp. rewrite Hseed in Hp.
      apply list_elem_of_fmap in Hp as (t & -> & _). by eexists. }
  destruct (TodoListService_GetLayout_spec σ2 this Hwf2)
    as (l3 & σ3 & ws' & Hrun3 & _ & Hl3 & Hall3 & _).
  assert (length ws = length (DefaultTodoList σ)) as Hlen.
  { symmetry. by eapply Forall2_length. }
  exists l1, σ1, ws, σ2, l3, σ3, ws'.
  split; [done|]. split; [by apply children_Some|]. split; [done|].
  split; [by apply children_Some, Hframe2|]. split; [|split; [done|split; [|split; [done|split]]]].
  - apply list_eq_Forall2, Forall2_fmap, Forall_Forall2_diag, Forall_forall.
    intros w [i Hi]%list_elem_of_lookup.
    destruct (Forall2_lookup_r _ _ _ _ _ Hall1 Hi) as (p & _ & t & _ & Hb).
    by rewrite (button_text_Some _ _ _ Hb), (button_text_Some _ _ _ (Hframe2 _ _ Hb)).
  - rewrite Hlist2, length_app, Hlist1, Hlen. done.
  - by apply children_Some.
  - apply Forall2_length in Hall3. rewrite <- Hall3, Hlist2, length_app, Hlist1, Hlen. done.
Qed.

Lemma layout_is_snapshot_witness :
  wf seeded = true
  ∧ ∃ layout σ1 ws σ2 layout' σ3 ws',
    TodoListService_GetLayout 8%positive seeded = Some (layout, σ1)
    ∧ children σ1 layout = Some ws
    ∧ TodoListService_ctor 9%positive σ1 = Some (tt, σ2)
    ∧ children σ2 layout = Some ws
    ∧ button_text σ2 <$> ws = button_text σ1 <$> ws
    ∧ length ws = length (DefaultTodoList seeded)
    ∧ length (DefaultTodoList σ2) = (length ws + 3)%nat
    ∧ TodoListService_GetLayout 8%positive σ2 = Some (layout', σ3)
    ∧ children σ3 layout' = Some ws'
    ∧ length ws' = (length ws + 3)%nat.
Proof.
  assert (wf seeded = true) as H by (vm_compute; reflexivity).
  split; [exact H | exact (layout_is_snapshot seeded 8%positive 9%positive H)].
Defined.

Lemma fmap_concat_replicate {A B} (f : A → B) (n : nat) (l : list A) :
  f <$> concat (replicate n l) = concat (replicate n (f <$> l)).
Proof. induction n as [|n IH]; [done|]. simpl. by rewrite fmap_app, IH. Qed.

(** X6. Rendering after [N] more constructions shows every record once
    per construction: the texts of the layout are the names of the
    records the vector held before, followed by [N] times the three
    names "Clean cat shit", "Wash dishes", "English language
    homework". *)
Theorem render_after_constructions (σ : State) (services : list ptr) (this : ptr) :
  wf σ = true →
  ∃ σ1 layout σ2 ws,
    constructions services σ = Some (tt, σ1)
    ∧ TodoListService_GetLayout this σ1 = Some (layout, σ2)
    ∧ children σ2 layout = Some ws
    ∧ length ws = (length (DefaultTodoList σ) + 3 * length services)%nat
    ∧ button_text σ2 <$> ws =
        (name_at σ <$> DefaultTodoList σ)
        ++ (Some <$> concat (replicate (length services)
                               ["Clean cat shit"; "Wash dishes";
                                "English language homework"]%string)).
Proof.
  intros Hwf.
  destruct (constructions_spec services σ)
    as (σ1 & new & Hrun & Hlist & Hseed & _ & _ & Hframe).
  assert (∀ p, p ∈ DefaultTodoList σ → task_at σ1 p = task_at σ p) as Hold.
  { intros p Hp. apply wf_Forall in Hwf. rewrite Forall_forall in Hwf.
    destruct (Hwf p Hp) as [t Ht].
    by rewrite (proj2 (task_at_Some σ p t) Ht), (proj2 (task_at_Some σ1 p t) (Hframe _ _ Ht)). }
  assert (wf σ1 = true) as Hwf1.
  { apply wf_task_at. rewrite Hlist. apply Forall_app. split.
    - apply Forall_forall. intros p Hp. rewrite (Hold p Hp).
      apply wf_task_at in Hwf. rewrite Forall_forall in Hwf. by apply Hwf.
    - apply Forall_forall. intros p Hp.
      apply (list_elem_of_fmap_2 (task_at σ1)) in Hp. rewrite Hseed in Hp.
      apply list_elem_of_fmap in Hp as (t & -> & _). by eexists. }
  destruct (TodoListService_GetLayout_spec σ1 this Hwf1)
    as (layout & σ2 & ws & Hrender & _ & Hl & Hall & _).
  assert (button_text σ2 <$> ws =
            (name_at σ <$> DefaultTodoList σ)
            ++ (Some <$> concat (replicate (length services) (name <$> seed)))) as Htexts.
  { rewrite (texts_are_names _ _ _ _ Hall), Hlist, fmap_app. f_equal.
    - apply list_eq_Forall2, Forall2_fmap, Forall_Forall2_diag, Forall_forall.
      intros p Hp. unfold name_at. by rewrite (Hold p Hp).
    - rewrite <- fmap_concat_replicate.
      transitivity (fmap (M := option) name <$> (task_at σ1 <$> new)).
      + by rewrite <- list_fmap_compose.
      + rewrite Hseed, <- !list_fmap_compose. done. }
  exists σ1, layout, σ2, ws.
  split; [done|]. split; [done|]. split; [by apply children_Some|]. split; [|exact Htexts].
  apply (f_equal length) in Htexts.
  rewrite length_app, !length_fmap in Htexts. rewrite Htexts. f_equal.
  clear. induction services as [|? ? IH]; [done|].
  simpl in *. rewrite IH. lia.
Qed.

Lemma render_after_constructions_witness :
  wf seeded = true
  ∧ ∃ σ1 layout σ2 ws,
    constructions [7%positive; 8%positive] seeded = Some (tt, σ1)
    ∧ TodoListService_GetLayout 9%positive σ1 = Some (layout, σ2)
    ∧ children σ2 layout = Some ws
    ∧ length ws = (length (DefaultTodoList seeded) + 3 * length [7%positive; 8%positive])%nat
    ∧ button_text σ2 <$> ws =
        (name_at seeded <$> DefaultTodoList seeded)
        ++ (Some <$> concat (replicate (length [7%positive; 8%positive])
                               ["Clean cat shit"; "Wash dishes";
                                "English language homework"]%string)).
Proof.
  assert (wf seeded = true) as H by (vm_compute; reflexivity).
  split; [exact H|].
  exact (render_after_constructions seeded [7%positive; 8%positive] 9%positive H).
Defined.

(** ** More on the counter *)

(** X7. Increments of two different records commute: in either order
    both calls succeed, they end in the same state, and each record's
    counter has gone up by one (on [int]) while its name and author
    stand. *)
Theorem IncreaseTimesDone_commute (σ : State) (p q : ptr) (tp tq : TodoItem) :
  p ≠ q →
  heap σ !! p = Some (OTodoItem tp) →
  heap σ !! q = Some (OTodoItem tq) →
  ∃ σ',
    (IncreaseTimesDone p;; IncreaseTimesDone q) σ = Some (tt, σ')
    ∧ (IncreaseTimesDone q;; IncreaseTimesDone p) σ = Some (tt, σ')
    ∧ task_at σ' p = Some (mkTodoItem (name tp) (author tp) (Int.add (times_done tp) 1))
    ∧ task_at σ' q = Some (mkTodoItem (name tq) (author tq) (Int.add (times_done tq) 1))
    ∧ DefaultTodoList σ' = DefaultTodoList σ.
Proof.
  intros Hne Hp Hq. eexists. split; [|split; [|split; [|split]]].
  - unfold bind. rewrite (IncreaseTimesDone_eq _ _ _ Hp).
    erewrite IncreaseTimesDone_eq by (simpl; rewrite lookup_insert_ne by done; exact Hq).
    simpl. reflexivity.
  - unfold bind. rewrite (IncreaseTimesDone_eq _ _ _ Hq).
    erewrite IncreaseTimesDone_eq by (simpl; rewrite lookup_insert_ne by done; exact Hp).
    simpl. by rewrite insert_insert_ne.
  - apply task_at_Some. simpl. rewrite lookup_insert_ne by done. apply lookup_insert_eq.
  - apply task_at_Some. simpl. apply lookup_insert_eq.
  - done.
Qed.

Lemma IncreaseTimesDone_commute_witness :
  1%positive ≠ 2%positive
  ∧ ∃ σ',
    (IncreaseTimesDone 1%positive;; IncreaseTimesDone 2%positive) seeded = Some (tt, σ')
    ∧ (IncreaseTimesDone 2%positive;; IncreaseTimesDone 1%positive) seeded = Some (tt, σ')
    ∧ task_at σ' 1%positive = Some (mkTodoItem "Clean cat shit" "Andrew" (Int.add 0 1))
    ∧ task_at σ' 2%positive = Some (mkTodoItem "Wash dishes" "Victoria" (Int.add 0 1))
    ∧ DefaultTodoList σ' = DefaultTodoList seeded.
Proof.
  assert (1%positive ≠ 2%positive) as Hne by (vm_compute; discriminate).
  split; [exact Hne|].
  apply (IncreaseTimesDone_commute seeded 1%positive 2%positive
           (mkTodoItem "Clean cat shit" "Andrew" 0)
           (mkTodoItem "Wash dishes" "Victoria" 0) Hne); reflexivity.
Defined.

(** X8. In a sound vector an increment touches one element only:
    [IncreaseTimesDone] on the record of index [i] adds one (on [int])
    to that record's counter and leaves the record of every other index
    as it was. *)
Theorem IncreaseTimesDone_one_index (σ : State) (i : nat) (p : ptr) :
  sound σ = true →
  DefaultTodoList σ !! i = Some p →
  ∃ t σ',
    task_at σ p = Some t
    ∧ IncreaseTimesDone p σ = Some (tt, σ')
    ∧ DefaultTodoList σ' = DefaultTodoList σ
    ∧ task_at σ' p = Some (mkTodoItem (name t) (author t) (Int.add (times_done t) 1))
    ∧ ∀ j q, j ≠ i → DefaultTodoList σ !! j = Some q → task_at σ' q = task_at σ q.
Proof.
  intros [Hwf Hnd]%sound_spec Hi.
  apply wf_Forall in Hwf. rewrite Forall_forall in Hwf.
  destruct (Hwf p) as [t Ht]; [by eapply list_elem_of_lookup_2|].
  eexists t, _. split; [by apply task_at_Some|].
  split; [apply (IncreaseTimesDone_eq _ _ _ Ht)|]. split; [done|]. split.
  - apply task_at_Some. simpl. apply lookup_insert_eq.
  - intros j q Hji Hj. unfold task_at. simpl.
    rewrite lookup_insert_ne; [done|].
    intros ->. apply Hji. by eapply NoDup_lookup.
Qed.

Lemma IncreaseTimesDone_one_index_witness :
  sound seeded = true
  ∧ DefaultTodoList seeded !! 1%nat = Some 2%positive
  ∧ ∃ t σ',
    task_at seeded 2%positive = Some t
    ∧ IncreaseTimesDone 2%positive seeded = Some (tt, σ')
    ∧ DefaultTodoList σ' = DefaultTodoList seeded
    ∧ task_at σ' 2%positive =
        Some (mkTodoItem (name t) (author t) (Int.add (times_done t) 1))
    ∧ ∀ j q, j ≠ 1%nat → DefaultTodoList seeded !! j = Some q →
        task_at σ' q = task_at seeded q.
Proof.
  assert (sound seeded = true) as H by (vm_compute; reflexivity).
  assert (DefaultTodoList seeded !! 1%nat = Some 2%positive) as H1 by reflexivity.
  split; [exact H|]. split; [exact H1|].
  exact (IncreaseTimesDone_one_index seeded 1%nat 2%positive H H1).
Defined.

Lemma on_records_spec σ cs :
  on_records σ cs = true ↔ Forall (λ c, is_Some (task_at σ c.1)) cs.
Proof.
  unfold on_records. rewrite forallb_forall, Forall_forall.
  split; intros H c Hc.
  - by apply list_elem_of_In, H, bool_decide_eq_true in Hc.
  - by apply bool_decide_eq_true, H, list_elem_of_In.
Qed.

(** X9. Name and author are fixed at construction: whatever member
    functions of [TodoItem] are called, in whatever order, each on this
    record or on any other record, [GetName] and [GetAuthor] of this
    record return afterwards what they returned before, and its button
    carries that name. *)
Theorem name_and_author_immutable
    (σ : State) (this : ptr) (t : TodoItem) (cs : list (ptr * TodoItem_op)) :
  heap σ !! this = Some (OTodoItem t) →
  on_records σ cs = true →
  ∃ σ',
    calls_on cs σ = Some (tt, σ')
    ∧ GetName this σ' = Some (name t, σ')
    ∧ GetAuthor this σ' = Some (author t, σ')
    ∧ ∃ button σ'',
        TodoItem_GetLayout this σ' = Some (button, σ'')
        ∧ button_text σ'' button = Some (name t).
Proof.
  intros Hthis Hcs%on_records_spec.
  assert (∃ σ' t', calls_on cs σ = Some (tt, σ')
            ∧ heap σ' !! this = Some (OTodoItem t')
            ∧ name t' = name t ∧ author t' = author t) as (σ' & t' & Hrun & Hat & Hn & Ha).
  { revert σ t Hthis Hcs.
    induction cs as [|[target op] cs IH]; intros σ t Hthis Hcs.
    - exists σ, t. done.
    - apply Forall_cons in Hcs as [[t0 Htarget%task_at_Some] Hcs].
      destruct (call_keeps_records σ target t0 op Htarget) as (σ1 & Hcall & _ & Hrec).
      destruct (Hrec this t Hthis) as (t1 & Hthis1 & Hn1 & Ha1 & _).
      destruct (IH σ1 t1 Hthis1) as (σ' & t' & Hrun & Hat & Hn & Ha).
      { eapply Forall_impl; [exact Hcs|]. intros [q ?] [tq Hq%task_at_Some].
        destruct (Hrec q tq Hq) as (tq' & Hq' & _). exists tq'. by apply task_at_Some. }
      exists σ', t'. simpl. unfold bind at 1. rewrite Hcall.
      split; [done|]. split; [done|]. split; congruence. }
  exists σ'. split; [done|].
  rewrite (GetName_eq _ _ _ Hat), (GetAuthor_eq _ _ _ Hat), Hn, Ha.
  split; [done|]. split; [done|].
  eexists _, _. split; [apply (TodoItem_GetLayout_eq _ _ _ Hat)|].
  apply button_text_Some. simpl. rewrite lookup_insert_eq. by rewrite Hn.
Qed.

Lemma name_and_author_immutable_witness :
  let cs := [ (2%positive, op_IncreaseTimesDone); (1%positive, op_IncreaseTimesDone);
              (3%positive, op_GetLayout); (2%positive, op_GetLayout);
              (1%positive, op_GetName); (2%positive, op_IncreaseTimesDone) ] in
  heap seeded !! 2%positive = Some (OTodoItem (mkTodoItem "Wash dishes" "Victoria" 0))
  ∧ on_records seeded cs = true
  ∧ ∃ σ',
    calls_on cs seeded = Some (tt, σ')
    ∧ GetName 2%positive σ' = Some ("Wash dishes"%string, σ')
    ∧ GetAuthor 2%positive σ' = Some ("Victoria"%string, σ')
    ∧ ∃ button σ'',
        TodoItem_GetLayout 2%positive σ' = Some (button, σ'')
        ∧ button_text σ'' button = Some "Wash dishes"%string.
Proof.
  intros cs.
  assert (heap seeded !! 2%positive =
            Some (OTodoItem (mkTodoItem "Wash dishes" "Victoria" 0))) as H2 by reflexivity.
  assert (on_records seeded cs = true) as Hcs by (vm_compute; reflexivity).
  split; [exact H2|]. split; [exact Hcs|].
  exact (name_and_author_immutable seeded 2%positive _ cs H2 Hcs).
Defined.

(** X10. With [int] addition wrapping round modulo [2^32], the counter
    of a fresh record after [k] increments, for any [k], is the one
    [int] value congruent to [k] modulo [2^32]; so [2^32] more
    increments bring the same reading back. *)
Theorem times_done_modulo (σ : State) (n a : QString) (k : N) :
  ∃ z,
    result (times_done_after k n a σ) = Some z
    ∧ Int.in_range z
    ∧ (z - Z.of_N k) `mod` Int.modulus = 0
    ∧ result (times_done_after (k + 2 ^ 32) n a σ) = Some z.
Proof.
  exists (Int.wrap (Z.of_N k)). rewrite !times_done_after_eq.
  split; [done|].
  unfold Int.in_range, Int.INT_MIN, Int.INT_MAX, Int.wrap, Int.modulus, Int.width.
  pose proof (Z.mod_pos_bound (Z.of_N k + 2 ^ (32 - 1)) (2 ^ 32) ltac:(lia)) as Hb.
  pose proof (Z.div_mod (Z.of_N k + 2 ^ (32 - 1)) (2 ^ 32) ltac:(lia)) as Hd.
  split; [lia|]. split.
  - replace ((Z.of_N k + 2 ^ (32 - 1)) `mod` 2 ^ 32 - 2 ^ (32 - 1) - Z.of_N k)
      with (- ((Z.of_N k + 2 ^ (32 - 1)) `div` 2 ^ 32) * 2 ^ 32) by lia.
    apply Z.mod_mul. lia.
  - do 2 f_equal. rewrite N2Z.inj_add.
    replace (Z.of_N (2 ^ 32)) with (1 * 2 ^ 32) by reflexivity.
    replace (Z.of_N k + 1 * 2 ^ 32 + 2 ^ (32 - 1))
      with (Z.of_N k + 2 ^ (32 - 1) + 1 * 2 ^ 32) by lia.
    by rewrite Z.mod_add by lia.
Qed.
